(** * but_sample_detector: the frame callback of the sample detector node

    Shallow embedding of [src/but_sample_detector/src/sample_detector_node.cpp]:
    the identity generator [SampleDetectorNode::getNewObjectID], the
    identity-assignment loop of [SampleDetectorNode::newDataCallback] and the
    callback itself, with the ROS and OpenCV collaborators (image decoding,
    clock, prediction service, detector, convertor) taken as inputs. *)

From Stdlib Require Import ZArith QArith Qminmax ZifyBool Lia.
From stdpp Require Import base list.

Local Open Scope Z_scope.

(** ** Data model *)

(** [cv::Rect]: an axis-aligned box with [int] fields. *)
Record Rect := mkRect { x : Z; y : Z; width : Z; height : Z }.

(** Modelled from the spec: the declaration of [but_objdet::Object] lives in
    [but_objdet/but_objdet.h] of the but_objdet package.  The callback uses
    its fields [m_id] and [m_bb]; [m_class] is the class identifier the matcher
    compares. *)
Record BUTObject := mkObject { m_id : Z; m_class : Z; m_bb : Rect }.

(** [but_objdet::Objects] is a [std::vector] of objects. *)
Abbreviation Objects := (list BUTObject).

(** Modelled from the spec: the declaration of [TMatch] lives in
    [but_objdet/matcher/matcher.h] of the but_objdet package.  A match
    carries the detection index, the prediction index ([-1] for none) and the
    overlap score of the chosen pair. *)
Record TMatch := mkMatch { detId : Z; predId : Z; overlap : Q }.

Definition set_m_id (d : BUTObject) (id : Z) : BUTObject :=
  {| m_id := id; m_class := m_class d; m_bb := m_bb d |}.

(** ** Machine integers *)

(** The value of a mathematical integer stored in a 32-bit [int]. *)
Definition wrap_int (z : Z) : Z := (z + 2 ^ 31) mod 2 ^ 32 - 2 ^ 31.

Definition INT_MIN : Z := - 2 ^ 31.
Definition INT_MAX : Z := 2 ^ 31 - 1.

Definition is_int (z : Z) : Prop := INT_MIN <= z <= INT_MAX.

(** ** Vector indexing *)

(** [v[i]] for an [int] index [i].  [std::vector::operator[]] has no bounds
    check: an index outside [0, size) has no defined result, which is [None]
    here.  A negative [int] converts to a [size_t] beyond any vector's size. *)
Definition vec_at {A : Type} (v : list A) (i : Z) : option A :=
  if i <? 0 then None else v !! Z.to_nat i.

(** [detections[i].m_id = id] for an [unsigned int] index [i]. *)
Definition store_m_id (dets : Objects) (i : nat) (id : Z) : option Objects :=
  match dets !! i with
  | Some d => Some (<[i := set_m_id d id]> dets)
  | None => None
  end.

(** ** The identity generator *)

(** [SampleDetectorNode::getNewObjectID], on the member [lastObjectID]:
    the result is the returned identity and the new value of the member. *)
Definition getNewObjectID (lastObjectID : Z) : Z * Z :=
  let lastObjectID := if lastObjectID >=? 100000 then 0 else lastObjectID in
  let lastObjectID := wrap_int (lastObjectID + 1) in
  (lastObjectID, lastObjectID).

(** The identities returned by [n] consecutive calls, oldest first, and the
    counter they leave. *)
Fixpoint mint (n : nat) (lastObjectID : Z) : list Z * Z :=
  match n with
  | O => ([], lastObjectID)
  | S n' =>
      let '(id, last1) := getNewObjectID lastObjectID in
      let '(ids, last2) := mint n' last1 in
      (id :: ids, last2)
  end.

(** The [k]-th freshly minted identity, counting from 1. *)
Definition kth_identity (k : nat) (lastObjectID : Z) : option Z :=
  (mint k lastObjectID).1 !! (k - 1)%nat.

(** ** The identity-assignment loop (step 5 of the callback) *)

(** The loop [for (i = 0; i < matches.size(); i++)], entered at index [i] with
    [ms] the matches from [matches[i]] on.  [None] stands for an access outside
    a vector. *)
Fixpoint assignFrom (i : nat) (ms : list TMatch) (predictions detections : Objects)
    (lastObjectID : Z) : option (Objects * Z) :=
  match ms with
  | [] => Some (detections, lastObjectID)
  | m :: ms' =>
      if negb (predId m =? -1) then
        match vec_at predictions (predId m) with
        | Some p =>
            match store_m_id detections i (m_id p) with
            | Some detections' => assignFrom (S i) ms' predictions detections' lastObjectID
            | None => None
            end
        | None => None
        end
      else
        let '(id, lastObjectID') := getNewObjectID lastObjectID in
        match store_m_id detections i id with
        | Some detections' => assignFrom (S i) ms' predictions detections' lastObjectID'
        | None => None
        end
  end.

Definition assignIdentities (matches : list TMatch) (predictions detections : Objects)
    (lastObjectID : Z) : option (Objects * Z) :=
  assignFrom 0 matches predictions detections lastObjectID.

(** ** The overlap matcher *)

Definition area (r : Rect) : Z := width r * height r.

(** Modelled from the spec: the area of the intersection of two boxes, which
    the matcher of the but_objdet package computes; an empty intersection has
    area 0. *)
Definition intersectionArea (a b : Rect) : Z :=
  let x1 := Z.max (x a) (x b) in
  let y1 := Z.max (y a) (y b) in
  let x2 := Z.min (x a + width a) (x b + width b) in
  let y2 := Z.min (y a + height a) (y b + height b) in
  if (x2 <=? x1) || (y2 <=? y1) then 0 else (x2 - x1) * (y2 - y1).

(** Modelled from the spec: [overlapRatio] of section 4.1 (the matcher is
    [but_objdet/matcher/matcher_overlap.cpp] of the but_objdet package).
    An empty intersection gives 0, a box of zero area gives 0, otherwise the
    smaller of the two shares of the intersection.  The ratio is kept exact, as
    a rational. *)
Definition overlapRatio (a b : Rect) : Q :=
  let inter := intersectionArea a b in
  if (inter <=? 0) || (area a =? 0) || (area b =? 0) then 0%Q
  else Qmin (inject_Z inter / inject_Z (area a)) (inject_Z inter / inject_Z (area b)).

(** Modelled from the spec: a prediction qualifies for a detection when the
    classes agree and the ratio, as a percentage, reaches the threshold. *)
Definition qualifies (minOverlap : Z) (d p : BUTObject) : bool :=
  (m_class p =? m_class d)
  && Qle_bool (inject_Z minOverlap) (overlapRatio (m_bb d) (m_bb p) * 100).

(** Modelled from the spec: the scan over the predictions from index [j] on,
    keeping the qualifying prediction of strictly greatest ratio, the first
    seen on equal ratios. *)
Fixpoint bestPrediction (minOverlap : Z) (d : BUTObject) (j : Z) (ps : Objects)
    (best : option (Z * Q)) : option (Z * Q) :=
  match ps with
  | [] => best
  | p :: ps' =>
      let r := overlapRatio (m_bb d) (m_bb p) in
      let best' :=
        if qualifies minOverlap d p then
          match best with
          | Some (_, rb) => if Qle_bool r rb then best else Some (j, r)
          | None => Some (j, r)
          end
        else best in
      bestPrediction minOverlap d (j + 1) ps' best'
  end.

(** Modelled from the spec: the match of one detection; no qualifying
    prediction is recorded as prediction index [-1]. *)
Definition matchOne (minOverlap : Z) (ps : Objects) (i : nat) (d : BUTObject) : TMatch :=
  match bestPrediction minOverlap d 0 ps None with
  | Some (j, r) => {| detId := Z.of_nat i; predId := j; overlap := r |}
  | None => {| detId := Z.of_nat i; predId := -1; overlap := 0%Q |}
  end.

(** Modelled from the spec: [MatcherOverlap::match] of section 4.2, one match
    per detection, in detection order. *)
Definition MatcherOverlap_match (minOverlap : Z) (dets preds : Objects) : list TMatch :=
  imap (matchOne minOverlap preds) dets.

(** ** The collaborators of the node *)

(** The ObjDet API and the ROS message types the node is written against:
    images, message headers, detection messages, the convertor between
    messages and objects, and the detector with its own state. *)
Class ObjDetAPI := {
  Image : Type;
  Header : Type;
  DetectionMsg : Type;
  Detector : Type;
  detectionsToButObjects : list DetectionMsg -> Objects;
  butObjectsToDetections : Objects -> Header -> list DetectionMsg;
  (** [prediction(predictions, FLAGS)] *)
  prediction : Detector -> Objects -> Z -> Detector;
  (** [detect(rgb, Mat(), detections, FLAGS)]: [detections] is passed by
      reference, the result holds its new content. *)
  detect : Detector -> Image -> Objects -> Z -> Detector * Objects
}.

(** The request of the [PredictDetections] service. *)
Record PredictRequest := mkRequest { stamp_sec : Z; object_id : Z; class_id : Z }.

Inductive RosError := CvBridgeException | ServiceCallFailed.

Section Node.
Context `{api : ObjDetAPI}.

(** The members of [SampleDetectorNode] the callback reads and writes. *)
Record Node := mkNode {
  sampleDetector : Detector;
  predictions : Objects;
  detections : Objects;
  lastObjectID : Z
}.

(** What the world answers during one callback: the header of the image
    message, the result of [cv_bridge::toCvCopy] ([None] for its exception),
    the successive readings of [ros::Time::now().sec], and the answer of the
    prediction service ([None] when [call] returns false). *)
Record Frame := mkFrame {
  header : Header;
  toCvCopy : option Image;
  now_sec : list Z;
  call : PredictRequest -> option (list DetectionMsg)
}.

(** What the callback does to the outside, in order. *)
Inductive Event :=
  | EvError (e : RosError)
  | EvCall (req : PredictRequest)
  | EvPublish (h : Header) (ds : list DetectionMsg)
  | EvShow (bb : Rect).

(** A callback returns, reads outside a vector, or waits for the clock
    forever. *)
Inductive Outcome :=
  | Returned (n : Node) (tr : list Event)
  | Undefined
  | Stalled.

(** The loop [do { reqTime = now(); } while (reqTime.sec == 0)] over the
    readings the clock will give. *)
Fixpoint waitForClock (readings : list Z) : option Z :=
  match readings with
  | [] => None
  | t :: rest => if t =? 0 then waitForClock rest else Some t
  end.

(** The request the callback builds: no object and no class filter. *)
Definition makeRequest (reqTime : Z) : PredictRequest :=
  {| stamp_sec := reqTime; object_id := -1; class_id := -1 |}.

(** Step 1 of the callback: the content of the member [predictions] after the
    service call.  A failed call only logs an error and leaves the member as
    it was. *)
Definition fetchPredictions (n : Node) (f : Frame) (reqTime : Z) : Objects * list Event :=
  let req := makeRequest reqTime in
  match call f req with
  | Some response => (detectionsToButObjects response, [EvCall req])
  | None => (predictions n, [EvCall req; EvError ServiceCallFailed])
  end.

(** Steps 2 and 3 of the callback: the detector is given the predictions,
    then fills the member [detections]. *)
Definition runDetector (n : Node) (image : Image) (predictions1 : Objects) : Detector * Objects :=
  let detector1 := prediction (sampleDetector n) predictions1 0 in
  detect detector1 image (detections n) 0.

(** [SampleDetectorNode::newDataCallback]. *)
Definition newDataCallback (n : Node) (f : Frame) : Outcome :=
  match toCvCopy f with
  | None => Returned n [EvError CvBridgeException]
  | Some image =>
      match waitForClock (now_sec f) with
      | None => Stalled
      | Some reqTime =>
          let '(predictions1, tr1) := fetchPredictions n f reqTime in
          let '(detector2, detections1) := runDetector n image predictions1 in
          let matches := MatcherOverlap_match 50 detections1 predictions1 in
          match assignIdentities matches predictions1 detections1 (lastObjectID n) with
          | None => Undefined
          | Some (detections2, lastObjectID2) =>
              let tr2 := [EvPublish (header f) (butObjectsToDetections detections2 (header f))] in
              match detections2 !! 0%nat with
              | None => Undefined
              | Some d0 =>
                  Returned
                    {| sampleDetector := detector2; predictions := predictions1;
                       detections := detections2; lastObjectID := lastObjectID2 |}
                    (tr1 ++ tr2 ++ [EvShow (m_bb d0)])
              end
          end
      end
  end.

(** The detection lists a trace hands to the output sink. *)
Definition published (tr : list Event) : list (Header * list DetectionMsg) :=
  omap (fun e => match e with EvPublish h ds => Some (h, ds) | _ => None end) tr.

(** The service requests of a trace. *)
Definition requests (tr : list Event) : list PredictRequest :=
  omap (fun e => match e with EvCall req => Some req | _ => None end) tr.

(** A run of the callback over successive frames. *)
Fixpoint run (n : Node) (fs : list Frame) : Outcome :=
  match fs with
  | [] => Returned n []
  | f :: fs' =>
      match newDataCallback n f with
      | Returned n' tr =>
          match run n' fs' with
          | Returned n'' tr' => Returned n'' (tr ++ tr')
          | o => o
          end
      | o => o
      end
  end.

(** A trace without its error reports. *)
Definition quietTrace (tr : list Event) : list Event :=
  omap (fun e => match e with EvError _ => None | _ => Some e end) tr.

(** An outcome without its error reports. *)
Definition quiet (o : Outcome) : Outcome :=
  match o with
  | Returned n tr => Returned n (quietTrace tr)
  | _ => o
  end.

(** The frame [f] with a prediction service that answers [response]. *)
Definition withResponse (f : Frame) (response : list DetectionMsg) : Frame :=
  {| header := header f; toCvCopy := toCvCopy f; now_sec := now_sec f;
     call := fun _ => Some response |}.

(** The node [n] with the member [predictions] holding [ps]. *)
Definition withPredictions (n : Node) (ps : Objects) : Node :=
  {| sampleDetector := sampleDetector n; predictions := ps;
     detections := detections n; lastObjectID := lastObjectID n |}.

End Node.

(** ** Auxiliary notions for the statements *)

(** The identity returned by the call that follows [j] earlier calls. *)
Definition nth_fresh (j : nat) (lastObjectID : Z) : Z :=
  (getNewObjectID (mint j lastObjectID).2).1.

(** The number of matches that record no prediction. *)
Fixpoint countNone (ms : list TMatch) : nat :=
  match ms with
  | [] => 0%nat
  | m :: ms' => if predId m =? -1 then S (countNone ms') else countNone ms'
  end.

(** A match list the loop can run on: no more matches than detections, and
    every prediction index is [-1] or inside the prediction list. *)
Definition wf_matches (ms : list TMatch) (preds dets : Objects) : Prop :=
  (length ms <= length dets)%nat /\
  Forall (fun m => predId m = -1 \/ 0 <= predId m < Z.of_nat (length preds)) ms.

(** The closed form of the generator on any [int] counter. *)
Definition fresh_closed (c : Z) (j : nat) : Z :=
  let s := (if c >=? 100000 then 0 else c) + Z.of_nat j in
  if s <? 0 then s + 1 else s mod 100000 + 1.

(** The identity the loop gives to the detection of match number [k]. *)
Definition assigned (preds : Objects) (c : Z) (ms : list TMatch) (k : nat)
    (m : TMatch) (id : Z) : Prop :=
  if predId m =? -1 then id = nth_fresh (countNone (take k ms)) c
  else exists p, vec_at preds (predId m) = Some p /\ id = m_id p.

(** A simulated set of collaborators: an image is the list of objects the
    detector finds in it, messages are objects, the detector has no state. *)
Definition simAPI : ObjDetAPI := {|
  Image := Objects;
  Header := Z;
  DetectionMsg := BUTObject;
  Detector := unit;
  detectionsToButObjects := fun ds => ds;
  butObjectsToDetections := fun ds _ => ds;
  prediction := fun s _ _ => s;
  detect := fun s image _ _ => (s, image)
|}.

(** A detection as the detector hands it over, identity not yet assigned. *)
Definition fakeDetection : BUTObject :=
  {| m_id := -1; m_class := 1; m_bb := mkRect 0 0 10 10 |}.

(** A frame with 100001 detections. *)
Definition crowd : Objects := replicate (S (Z.to_nat 100000)) fakeDetection.

(** A box of zero area. *)
Definition emptyBox : Rect := mkRect 0 0 0 0.

(** The forecast of a tracked object of class 1 with identity 7. *)
Definition tracked : BUTObject :=
  {| m_id := 7; m_class := 1; m_bb := mkRect 10 10 20 20 |}.

(** A detection of class 1 on the box of [tracked]. *)
Definition seen : BUTObject :=
  {| m_id := -1; m_class := 1; m_bb := mkRect 10 10 20 20 |}.

(** Two detections of class 1 on boxes that do not overlap. *)
Definition detA : BUTObject :=
  {| m_id := -1; m_class := 1; m_bb := mkRect 0 0 10 10 |}.

Definition detB : BUTObject :=
  {| m_id := -1; m_class := 1; m_bb := mkRect 50 50 10 10 |}.

(** The node at start-up: empty buffers, identity counter 0. *)
Definition node0 : @Node simAPI :=
  @mkNode simAPI tt [] [] 0.

(** A frame showing [seen] while the service forecasts [tracked]; the clock
    reads 0 once before it answers. *)
Definition frameTracked : @Frame simAPI :=
  @mkFrame simAPI 1 (Some [seen]) [0; 5] (fun _ => Some [tracked]).

(** The next frame, again showing [seen], with the service call failing. *)
Definition frameFailing : @Frame simAPI :=
  @mkFrame simAPI 2 (Some [seen]) [6] (fun _ => None).

(** The same frame with the service answering an empty prediction list. *)
Definition frameNoPredictions : @Frame simAPI :=
  @mkFrame simAPI 2 (Some [seen]) [6] (fun _ => Some []).

(** A frame that cannot be decoded. *)
Definition frameBroken : @Frame simAPI :=
  @mkFrame simAPI 3 None [7] (fun _ => Some [tracked]).

(** A frame during which the clock only ever reads 0. *)
Definition frameNoClock : @Frame simAPI :=
  @mkFrame simAPI 4 (Some [seen]) [0; 0] (fun _ => Some []).

(** The node after [frameTracked]. *)
Definition node1 : @Node simAPI :=
  @mkNode simAPI tt [tracked] [set_m_id seen 7] 0.

Ltac forall_cases :=
  cbn;
  repeat first
    [ apply Forall_nil_2
    | apply Forall_cons_2;
      [ first [ left; reflexivity | right; simpl; lia | simpl; lia ] | ] ].

Ltac split_ifs :=
  repeat match goal with
         | |- context [if ?b then _ else _] => destruct b eqn:?
         end.

(** ** The identity generator: arithmetic *)

Lemma wrap_int_small (z : Z) : is_int z -> wrap_int z = z.
Proof.
  unfold is_int, INT_MIN, INT_MAX, wrap_int. intros Hz.
  rewrite Z.mod_small; lia.
Qed.

Lemma getNewObjectID_eq (c : Z) :
  is_int c ->
  getNewObjectID c = (if c >=? 100000 then 1 else c + 1, if c >=? 100000 then 1 else c + 1).
Proof.
  unfold getNewObjectID, is_int, INT_MIN, INT_MAX. intros Hc.
  destruct (c >=? 100000) eqn:E.
  - reflexivity.
  - rewrite wrap_int_small; [reflexivity|].
    unfold is_int, INT_MIN, INT_MAX. lia.
Qed.

Lemma getNewObjectID_int (c : Z) : is_int c -> is_int (getNewObjectID c).2.
Proof.
  intros Hc. rewrite getNewObjectID_eq by exact Hc. simpl.
  unfold is_int, INT_MIN, INT_MAX in *. destruct (c >=? 100000) eqn:E; lia.
Qed.

Lemma mint_S (n : nat) (c : Z) :
  mint (S n) c =
  ((getNewObjectID c).1 :: (mint n (getNewObjectID c).2).1, (mint n (getNewObjectID c).2).2).
Proof.
  cbn [mint]. destruct (getNewObjectID c) as [id c1]. cbn [fst snd].
  destruct (mint n c1) as [ids c2]. reflexivity.
Qed.

Lemma mint_length (n : nat) (c : Z) : length (mint n c).1 = n.
Proof.
  revert c. induction n as [|n IH]; intros c; [reflexivity|].
  rewrite mint_S. cbn [fst length]. now rewrite IH.
Qed.

Lemma nth_fresh_O (c : Z) : nth_fresh 0 c = (getNewObjectID c).1.
Proof. reflexivity. Qed.

Lemma nth_fresh_S (j : nat) (c : Z) :
  nth_fresh (S j) c = nth_fresh j (getNewObjectID c).2.
Proof. unfold nth_fresh. now rewrite mint_S. Qed.

Lemma mint_lookup (n j : nat) (c : Z) :
  (j < n)%nat -> (mint n c).1 !! j = Some (nth_fresh j c).
Proof.
  revert j c. induction n as [|n IH]; intros j c Hj; [lia|].
  rewrite mint_S. simpl. destruct j as [|j].
  - reflexivity.
  - simpl. rewrite nth_fresh_S. apply IH. lia.
Qed.

Lemma mint_counter_S (n : nat) (c : Z) : (mint (S n) c).2 = nth_fresh n c.
Proof.
  revert c. induction n as [|n IH]; intros c.
  - rewrite mint_S. reflexivity.
  - rewrite mint_S. cbn [snd]. rewrite IH. now rewrite nth_fresh_S.
Qed.

Lemma nth_fresh_closed (j : nat) (c : Z) :
  is_int c -> nth_fresh j c = fresh_closed c j.
Proof.
  revert c. induction j as [|j IH]; intros c Hc.
  - rewrite nth_fresh_O, getNewObjectID_eq by exact Hc. unfold fresh_closed.
    cbn [fst]. change (Z.of_nat 0) with 0.
    split_ifs; try lia; Z.div_mod_to_equations; lia.
  - rewrite nth_fresh_S, IH by (apply getNewObjectID_int, Hc).
    rewrite getNewObjectID_eq by exact Hc. cbn [snd]. unfold fresh_closed.
    rewrite Nat2Z.inj_succ.
    split_ifs; try lia; Z.div_mod_to_equations; lia.
Qed.

Lemma fresh_closed_inj (c : Z) (a b : nat) :
  (a < b)%nat -> Z.of_nat b - Z.of_nat a < 100000 ->
  fresh_closed c a <> fresh_closed c b.
Proof.
  unfold fresh_closed. intros Hab Hb.
  set (c0 := if c >=? 100000 then 0 else c).
  destruct (c0 + Z.of_nat a <? 0) eqn:Ea; destruct (c0 + Z.of_nat b <? 0) eqn:Eb;
    Z.div_mod_to_equations; lia.
Qed.

Lemma fresh_closed_range (c : Z) (j : nat) :
  0 <= c <= 100000 -> 1 <= fresh_closed c j <= 100000.
Proof.
  unfold fresh_closed. intros Hc.
  set (c0 := if c >=? 100000 then 0 else c).
  assert (0 <= c0) by (unfold c0; destruct (c >=? 100000); lia).
  destruct (c0 + Z.of_nat j <? 0) eqn:E; [lia|].
  Z.div_mod_to_equations. lia.
Qed.

Lemma fresh_closed_zero (j : nat) : fresh_closed 0 j = Z.of_nat j mod 100000 + 1.
Proof.
  unfold fresh_closed. change (0 >=? 100000) with false. cbv iota.
  rewrite Z.add_0_l. destruct (Z.of_nat j <? 0) eqn:E; [lia|reflexivity].
Qed.

Lemma is_int_range (c : Z) : 0 <= c <= 100000 -> is_int c.
Proof. unfold is_int, INT_MIN, INT_MAX. lia. Qed.

(** ** The identity-assignment loop: what it writes *)

Lemma vec_at_Some {A : Type} (v : list A) (i : Z) (a : A) :
  vec_at v i = Some a <-> 0 <= i < Z.of_nat (length v) /\ v !! Z.to_nat i = Some a.
Proof.
  unfold vec_at. destruct (i <? 0) eqn:E.
  - split; [discriminate | lia].
  - split.
    + intros H. split; [|exact H]. apply lookup_lt_Some in H. lia.
    + intros [_ H]. exact H.
Qed.

Lemma vec_at_is_Some {A : Type} (v : list A) (i : Z) :
  0 <= i < Z.of_nat (length v) -> is_Some (vec_at v i).
Proof.
  intros Hi. unfold vec_at. destruct (i <? 0) eqn:E; [lia|].
  apply lookup_lt_is_Some. lia.
Qed.

Lemma store_m_id_Some (dets : Objects) (i : nat) (id : Z) (dets' : Objects) :
  store_m_id dets i id = Some dets' <->
  exists d, dets !! i = Some d /\ dets' = <[i := set_m_id d id]> dets.
Proof.
  unfold store_m_id. destruct (dets !! i) as [d|].
  - split.
    + intros [= <-]. now exists d.
    + intros (d' & [= <-] & ->). reflexivity.
  - split; [discriminate|]. intros (d' & H & _). discriminate.
Qed.

Lemma assignFrom_cons (i : nat) (m : TMatch) (ms : list TMatch)
    (preds dets : Objects) (c : Z) (r : Objects * Z) :
  assignFrom i (m :: ms) preds dets c = Some r ->
  exists d id c1,
    dets !! i = Some d /\
    assigned preds c (m :: ms) 0 m id /\
    c1 = (if predId m =? -1 then (getNewObjectID c).2 else c) /\
    assignFrom (S i) ms preds (<[i := set_m_id d id]> dets) c1 = Some r.
Proof.
  cbn [assignFrom]. unfold assigned. cbn [take countNone].
  destruct (predId m =? -1) eqn:E; cbn [negb].
  - rewrite nth_fresh_O. destruct (getNewObjectID c) as [id c1]. cbn [fst snd].
    destruct (store_m_id dets i id) as [dets1|] eqn:Hs; [|discriminate].
    apply store_m_id_Some in Hs as (d & Hd & ->). intros H.
    exists d, id, c1. auto.
  - destruct (vec_at preds (predId m)) as [p|] eqn:Hp; [|discriminate].
    destruct (store_m_id dets i (m_id p)) as [dets1|] eqn:Hs; [|discriminate].
    apply store_m_id_Some in Hs as (d & Hd & ->). intros H.
    exists d, (m_id p), c. repeat split; eauto.
Qed.

Lemma assigned_cons (preds : Objects) (c : Z) (m0 : TMatch) (ms : list TMatch)
    (k : nat) (m : TMatch) (id : Z) :
  assigned preds (if predId m0 =? -1 then (getNewObjectID c).2 else c) ms k m id ->
  assigned preds c (m0 :: ms) (S k) m id.
Proof.
  unfold assigned. cbn [take countNone].
  destruct (predId m =? -1); [|auto].
  destruct (predId m0 =? -1); [|auto].
  now rewrite nth_fresh_S.
Qed.

Lemma assignFrom_char (ms : list TMatch) :
  forall (i : nat) (preds dets : Objects) (c : Z) (dets' : Objects) (c' : Z),
  assignFrom i ms preds dets c = Some (dets', c') ->
  length dets' = length dets /\
  c' = (mint (countNone ms) c).2 /\
  (forall j, (j < i)%nat \/ (i + length ms <= j)%nat -> dets' !! j = dets !! j) /\
  (forall k m, ms !! k = Some m ->
     exists d id, dets !! (i + k)%nat = Some d /\
       dets' !! (i + k)%nat = Some (set_m_id d id) /\
       assigned preds c ms k m id).
Proof.
  induction ms as [|m0 ms IH]; intros i preds dets c dets' c' H.
  - cbn in H. injection H as <- <-. repeat split; auto.
    intros k m Hk. rewrite lookup_nil in Hk. discriminate.
  - apply assignFrom_cons in H as (d & id & c1 & Hd & Hid & Hc1 & H).
    apply IH in H as (Hlen & Hc' & Hout & Hin).
    rewrite length_insert in Hlen.
    assert (Hi : (i < length dets)%nat) by (eapply lookup_lt_Some; eauto).
    repeat split.
    + exact Hlen.
    + rewrite Hc', Hc1. cbn [countNone].
      destruct (predId m0 =? -1); [|reflexivity].
      now rewrite mint_S.
    + intros j Hj. cbn [length] in Hj. rewrite Hout by lia.
      apply list_lookup_insert_ne. lia.
    + intros [|k] m Hk.
      * cbn in Hk. injection Hk as <-. exists d, id.
        rewrite Nat.add_0_r. split; [exact Hd|]. split; [|exact Hid].
        rewrite Hout by lia. now apply list_lookup_insert_eq.
      * cbn in Hk. apply Hin in Hk as (d' & id' & Hd' & Hd'' & Ha).
        replace (S i + k)%nat with (i + S k)%nat in * by lia.
        rewrite list_lookup_insert_ne in Hd' by lia.
        exists d', id'. split; [exact Hd'|]. split; [exact Hd''|].
        apply assigned_cons. now rewrite <- Hc1.
Qed.

Lemma assignFrom_total (ms : list TMatch) :
  forall (i : nat) (preds dets : Objects) (c : Z),
  (i + length ms <= length dets)%nat ->
  Forall (fun m => predId m = -1 \/ 0 <= predId m < Z.of_nat (length preds)) ms ->
  is_Some (assignFrom i ms preds dets c).
Proof.
  induction ms as [|m0 ms IH]; intros i preds dets c Hlen Hok.
  - cbn. eauto.
  - cbn [length] in Hlen. inversion Hok as [|? ? Hm0 Hms]; subst.
    destruct (lookup_lt_is_Some_2 dets i ltac:(lia)) as [d Hd].
    cbn [assignFrom]. unfold store_m_id. rewrite Hd.
    destruct (predId m0 =? -1) eqn:E; cbn [negb].
    + destruct (getNewObjectID c) as [id c1].
      apply IH; [rewrite length_insert; lia | exact Hms].
    + destruct Hm0 as [Hm0|Hm0]; [lia|].
      destruct (vec_at_is_Some preds _ Hm0) as [p ->].
      apply IH; [rewrite length_insert; lia | exact Hms].
Qed.

(** ** The matcher: shape of its result *)

Lemma bestPrediction_range (minOverlap : Z) (d : BUTObject) (ps : Objects) :
  forall (j : Z) (best : option (Z * Q)),
  0 <= j ->
  (forall k r, best = Some (k, r) -> 0 <= k < j) ->
  forall k r, bestPrediction minOverlap d j ps best = Some (k, r) ->
  0 <= k < j + Z.of_nat (length ps).
Proof.
  induction ps as [|p ps IH]; intros j best Hj Hbest k r H.
  - cbn in H. apply Hbest in H. cbn [length]. lia.
  - cbn [bestPrediction] in H. apply IH in H.
    + cbn [length]. lia.
    + lia.
    + intros k' r' Hk'.
      destruct (qualifies minOverlap d p).
      * destruct best as [[kb rb]|].
        -- destruct (Qle_bool (overlapRatio (m_bb d) (m_bb p)) rb).
           ++ apply Hbest in Hk'. lia.
           ++ injection Hk' as <- <-. lia.
        -- injection Hk' as <- <-. lia.
      * apply Hbest in Hk'. lia.
Qed.

Lemma matchOne_predId (minOverlap : Z) (ps : Objects) (i : nat) (d : BUTObject) :
  predId (matchOne minOverlap ps i d) = -1 \/
  0 <= predId (matchOne minOverlap ps i d) < Z.of_nat (length ps).
Proof.
  unfold matchOne.
  destruct (bestPrediction minOverlap d 0 ps None) as [[j r]|] eqn:E.
  - right. cbn [predId].
    apply (bestPrediction_range minOverlap d ps 0 None) in E; [lia | lia | discriminate].
  - left. reflexivity.
Qed.

Lemma matchOne_detId (minOverlap : Z) (ps : Objects) (i : nat) (d : BUTObject) :
  detId (matchOne minOverlap ps i d) = Z.of_nat i.
Proof.
  unfold matchOne. destruct (bestPrediction minOverlap d 0 ps None) as [[j r]|]; reflexivity.
Qed.

Lemma match_length (minOverlap : Z) (dets preds : Objects) :
  length (MatcherOverlap_match minOverlap dets preds) = length dets.
Proof. unfold MatcherOverlap_match. apply length_imap. Qed.

Lemma match_lookup (minOverlap : Z) (dets preds : Objects) (i : nat) :
  MatcherOverlap_match minOverlap dets preds !! i = matchOne minOverlap preds i <$> dets !! i.
Proof. unfold MatcherOverlap_match. apply list_lookup_imap. Qed.

Lemma match_wf (minOverlap : Z) (dets preds : Objects) :
  wf_matches (MatcherOverlap_match minOverlap dets preds) preds dets.
Proof.
  split.
  - rewrite match_length. lia.
  - apply Forall_lookup. intros i m Hm. rewrite match_lookup in Hm.
    destruct (dets !! i) as [d|]; [|discriminate].
    injection Hm as <-. apply matchOne_predId.
Qed.

Lemma match_no_predictions (minOverlap : Z) (dets : Objects) (i : nat) (m : TMatch) :
  MatcherOverlap_match minOverlap dets [] !! i = Some m -> predId m = -1.
Proof.
  rewrite match_lookup. destruct (dets !! i) as [d|]; [|discriminate].
  intros [= <-]. reflexivity.
Qed.

(** C7: for every detection list, prediction list and threshold, the matcher
    returns exactly one match per detection, in detection order; a detection
    without a qualifying prediction still has its entry, whose prediction
    index is [-1], and every other prediction index points into the
    prediction list. *)
Theorem match_one_per_detection (minOverlap : Z) (dets preds : Objects) :
  length (MatcherOverlap_match minOverlap dets preds) = length dets /\
  forall (i : nat) (d : BUTObject), dets !! i = Some d ->
    exists m, MatcherOverlap_match minOverlap dets preds !! i = Some m /\
      detId m = Z.of_nat i /\
      (predId m = -1 \/ 0 <= predId m < Z.of_nat (length preds)).
Proof.
  split; [apply match_length|].
  intros i d Hd. exists (matchOne minOverlap preds i d).
  rewrite match_lookup, Hd. split; [reflexivity|].
  split; [apply matchOne_detId | apply matchOne_predId].
Qed.

(** ** The identity-assignment loop: consequences *)

Lemma is_int_0 : is_int 0.
Proof. apply is_int_range. lia. Qed.

Lemma assign_wf_Some (ms : list TMatch) (preds dets : Objects) (c : Z) :
  wf_matches ms preds dets -> is_Some (assignIdentities ms preds dets c).
Proof.
  intros [Hlen Hok]. unfold assignIdentities.
  apply assignFrom_total; [lia | exact Hok].
Qed.

Lemma assign_char (ms : list TMatch) (preds dets : Objects) (c : Z)
    (dets' : Objects) (c' : Z) :
  assignIdentities ms preds dets c = Some (dets', c') ->
  length dets' = length dets /\
  c' = (mint (countNone ms) c).2 /\
  (forall j, (length ms <= j)%nat -> dets' !! j = dets !! j) /\
  (forall k m, ms !! k = Some m ->
     exists d id, dets !! k = Some d /\ dets' !! k = Some (set_m_id d id) /\
       assigned preds c ms k m id).
Proof.
  unfold assignIdentities. intros H.
  apply assignFrom_char in H as (Hlen & Hc & Hout & Hin).
  repeat split; auto.
Qed.

Lemma countNone_app (l1 l2 : list TMatch) :
  countNone (l1 ++ l2) = (countNone l1 + countNone l2)%nat.
Proof.
  induction l1 as [|m l1 IH]; [reflexivity|].
  cbn [app countNone]. rewrite IH. destruct (predId m =? -1); lia.
Qed.

Lemma countNone_all (ms : list TMatch) :
  Forall (fun m => predId m = -1) ms -> countNone ms = length ms.
Proof.
  induction 1 as [|m ms Hm _ IH]; [reflexivity|].
  cbn [countNone length]. rewrite Hm, IH. reflexivity.
Qed.

Lemma countNone_at (ms : list TMatch) (i : nat) (m : TMatch) :
  ms !! i = Some m -> predId m = -1 ->
  (countNone (take i ms) < countNone ms)%nat.
Proof.
  intros Hi Hm. rewrite <- (take_drop_middle ms i m Hi) at 2.
  rewrite countNone_app. cbn [countNone]. rewrite Hm. cbn. lia.
Qed.

Lemma countNone_take_lt (ms : list TMatch) (i j : nat) (m : TMatch) :
  (i < j)%nat -> ms !! i = Some m -> predId m = -1 ->
  (countNone (take i ms) < countNone (take j ms))%nat.
Proof.
  intros Hij Hi Hm.
  assert (H : take j ms !! i = Some m) by (rewrite lookup_take_lt by lia; exact Hi).
  apply countNone_at in H; [|exact Hm].
  rewrite take_take in H. now replace (i `min` j)%nat with i in H by lia.
Qed.

Lemma nth_fresh_distinct (c : Z) (a b : nat) :
  is_int c -> (a < b)%nat -> Z.of_nat b < 100000 -> nth_fresh a c <> nth_fresh b c.
Proof.
  intros Hc Hab Hb. rewrite !nth_fresh_closed by exact Hc.
  apply fresh_closed_inj; lia.
Qed.

(** C1: from a counter of 0 the [k]-th minted identity is
    [((k-1) mod 100000) + 1] for every [k >= 1] (so the identity after 100000
    is 1), and in an assignment batch started at counter 0 the detection that
    is the [k]-th unmatched one in detection order receives that identity:
    the first two unmatched detections receive 1 and 2. *)
Theorem fresh_identity_kth (k : nat) :
  (1 <= k)%nat ->
  kth_identity k 0 = Some ((Z.of_nat k - 1) mod 100000 + 1) /\
  forall (ms : list TMatch) (preds dets dets' : Objects) (c' : Z) (i : nat) (m : TMatch),
    assignIdentities ms preds dets 0 = Some (dets', c') ->
    ms !! i = Some m -> predId m = -1 ->
    countNone (take i ms) = (k - 1)%nat ->
    exists d, dets' !! i = Some d /\ m_id d = (Z.of_nat k - 1) mod 100000 + 1.
Proof.
  intros Hk.
  assert (Hf : nth_fresh (k - 1) 0 = (Z.of_nat k - 1) mod 100000 + 1).
  { rewrite nth_fresh_closed by apply is_int_0. rewrite fresh_closed_zero.
    now replace (Z.of_nat (k - 1)) with (Z.of_nat k - 1) by lia. }
  split.
  - unfold kth_identity. rewrite mint_lookup by lia. now rewrite Hf.
  - intros ms preds dets dets' c' i m Ha Hi Hm Hcount.
    apply assign_char in Ha as (_ & _ & _ & Hin).
    destruct (Hin i m Hi) as (d & id & _ & Hd' & Hid).
    unfold assigned in Hid. rewrite Hm in Hid. cbn in Hid.
    exists (set_m_id d id). split; [exact Hd'|].
    cbn [set_m_id m_id]. now rewrite Hid, Hcount.
Qed.

(** C2: for every index [i], if the [i]-th match references a prediction
    (its prediction index is not [-1]), then after the assignment loop the
    [i]-th detection carries the identity of that prediction. *)
Theorem matched_detection_inherits (ms : list TMatch) (preds dets : Objects) (c : Z)
    (i : nat) (m : TMatch) :
  wf_matches ms preds dets ->
  ms !! i = Some m -> predId m <> -1 ->
  exists dets' c' d p,
    assignIdentities ms preds dets c = Some (dets', c') /\
    vec_at preds (predId m) = Some p /\
    dets' !! i = Some d /\ m_id d = m_id p.
Proof.
  intros Hwf Hi Hm.
  destruct (assign_wf_Some ms preds dets c Hwf) as [[dets' c'] Ha].
  destruct (assign_char _ _ _ _ _ _ Ha) as (_ & _ & _ & Hin).
  destruct (Hin i m Hi) as (d & id & _ & Hd' & Hid).
  unfold assigned in Hid.
  destruct (predId m =? -1) eqn:E; [lia|].
  destruct Hid as (p & Hp & ->).
  exists dets', c', (set_m_id d (m_id p)), p. auto.
Qed.

(** C10: the assignment loop is defined only if there are no more matches
    than detections and every non-negative prediction index of a match lies
    inside the prediction list; with prediction indices that are never below
    [-1], these two conditions are also enough for it to be defined. *)
Theorem assign_defined_only_if (ms : list TMatch) (preds dets : Objects) (c : Z) :
  (is_Some (assignIdentities ms preds dets c) ->
   (length ms <= length dets)%nat /\
   Forall (fun m => 0 <= predId m -> predId m < Z.of_nat (length preds)) ms) /\
  ((length ms <= length dets)%nat ->
   Forall (fun m => 0 <= predId m -> predId m < Z.of_nat (length preds)) ms ->
   Forall (fun m => -1 <= predId m) ms ->
   is_Some (assignIdentities ms preds dets c)).
Proof.
  split.
  - intros [[dets' c'] Ha].
    apply assign_char in Ha as (_ & _ & _ & Hin). split.
    + destruct (decide (length ms = 0%nat)) as [->|Hne]; [lia|].
      destruct (lookup_lt_is_Some_2 ms (length ms - 1) ltac:(lia)) as [m Hm].
      destruct (Hin _ _ Hm) as (d & _ & Hd & _).
      apply lookup_lt_Some in Hd. lia.
    + apply Forall_lookup. intros k m Hm Hnn.
      destruct (Hin _ _ Hm) as (_ & id & _ & _ & Hid).
      unfold assigned in Hid. destruct (predId m =? -1) eqn:E; [lia|].
      destruct Hid as (p & Hp & _). apply vec_at_Some in Hp. lia.
  - intros Hlen Hidx Hlow. apply assign_wf_Some. split; [exact Hlen|].
    apply Forall_lookup. intros k m Hm.
    pose proof (proj1 (Forall_lookup _ _) Hidx k m Hm) as H1.
    pose proof (proj1 (Forall_lookup _ _) Hlow k m Hm) as H2.
    cbn beta in H1, H2. lia.
Qed.

(** C4, as amended: in one assignment batch with at most 100000 unmatched
    detections, the counter advances exactly once per unmatched detection and
    any two distinct detections whose matches record no prediction receive
    different identities. *)
Theorem unmatched_identities_distinct (ms : list TMatch) (preds dets : Objects) (c : Z) :
  wf_matches ms preds dets ->
  is_int c ->
  Z.of_nat (countNone ms) <= 100000 ->
  exists dets' c',
    assignIdentities ms preds dets c = Some (dets', c') /\
    c' = (mint (countNone ms) c).2 /\
    forall (i j : nat) (mi mj : TMatch),
      i <> j -> ms !! i = Some mi -> ms !! j = Some mj ->
      predId mi = -1 -> predId mj = -1 ->
      exists di dj, dets' !! i = Some di /\ dets' !! j = Some dj /\ m_id di <> m_id dj.
Proof.
  intros Hwf Hc Hcount.
  destruct (assign_wf_Some ms preds dets c Hwf) as [[dets' c'] Ha].
  exists dets', c'. split; [exact Ha|].
  apply assign_char in Ha as (_ & Hc' & _ & Hin). split; [exact Hc'|].
  intros i j mi mj Hij Hi Hj Hmi Hmj.
  destruct (Hin i mi Hi) as (di & idi & _ & Hdi & Hai).
  destruct (Hin j mj Hj) as (dj & idj & _ & Hdj & Haj).
  unfold assigned in Hai, Haj. rewrite Hmi in Hai. rewrite Hmj in Haj.
  cbn in Hai, Haj. subst idi idj.
  exists (set_m_id di (nth_fresh (countNone (take i ms)) c)),
         (set_m_id dj (nth_fresh (countNone (take j ms)) c)).
  split; [exact Hdi|]. split; [exact Hdj|]. cbn [set_m_id m_id].
  pose proof (countNone_at ms i mi Hi Hmi) as Hli.
  pose proof (countNone_at ms j mj Hj Hmj) as Hlj.
  destruct (Nat.lt_total i j) as [Hlt|[Heq|Hlt]]; [|contradiction|].
  - pose proof (countNone_take_lt ms i j mi Hlt Hi Hmi).
    apply nth_fresh_distinct; [exact Hc | lia | lia].
  - pose proof (countNone_take_lt ms j i mj Hlt Hj Hmj).
    apply not_eq_sym, nth_fresh_distinct; [exact Hc | lia | lia].
Qed.

Lemma all_unmatched_identity (n : nat) (d0 : BUTObject) (k : nat) :
  (k < n)%nat ->
  let dets := replicate n d0 in
  let ms := MatcherOverlap_match 50 dets [] in
  exists dets' c' m d,
    assignIdentities ms [] dets 0 = Some (dets', c') /\
    ms !! k = Some m /\ predId m = -1 /\
    dets' !! k = Some d /\ m_id d = Z.of_nat k mod 100000 + 1.
Proof.
  intros Hk dets ms.
  destruct (assign_wf_Some ms [] dets 0 (match_wf 50 dets [])) as [[dets' c'] Ha].
  assert (Hall : Forall (fun m => predId m = -1) ms).
  { apply Forall_lookup. intros i m Hm. eapply match_no_predictions, Hm. }
  assert (Hlen : length ms = n).
  { unfold ms, dets. rewrite match_length. apply length_replicate. }
  assert (Hcnt : countNone (take k ms) = k).
  { rewrite countNone_all by (apply Forall_take, Hall).
    rewrite length_take. lia. }
  destruct (lookup_lt_is_Some_2 ms k) as [m Hm]; [lia|].
  pose proof (proj1 (Forall_lookup _ _) Hall _ _ Hm) as Hp. cbn beta in Hp.
  destruct (assign_char _ _ _ _ _ _ Ha) as (_ & _ & _ & Hin).
  destruct (Hin _ _ Hm) as (d & id & _ & Hd & Hid).
  unfold assigned in Hid. rewrite Hp in Hid. cbn [Z.eqb Pos.eqb] in Hid.
  rewrite Hcnt, nth_fresh_closed, fresh_closed_zero in Hid by apply is_int_0.
  exists dets', c', m, (set_m_id d id).
  repeat split; try assumption.
Qed.

(** C4, as stated, fails: in a batch of 100001 detections without any
    prediction, started at counter 0, the first and the last detection are
    both unmatched and both receive identity 1. *)
Lemma crowd_identity_reused :
  exists dets' c' mi mj di dj,
    assignIdentities (MatcherOverlap_match 50 crowd []) [] crowd 0 = Some (dets', c') /\
    MatcherOverlap_match 50 crowd [] !! 0%nat = Some mi /\
    MatcherOverlap_match 50 crowd [] !! Z.to_nat 100000 = Some mj /\
    predId mi = -1 /\ predId mj = -1 /\
    dets' !! 0%nat = Some di /\ dets' !! Z.to_nat 100000 = Some dj /\
    m_id di = m_id dj.
Proof.
  unfold crowd. generalize (Z2Nat.id 100000 ltac:(lia)).
  generalize (Z.to_nat 100000). intros n Hn.
  destruct (all_unmatched_identity (S n) fakeDetection 0 ltac:(lia))
    as (dets' & c' & mi & di & Ha & Hmi & Hpi & Hdi & Hi).
  destruct (all_unmatched_identity (S n) fakeDetection n ltac:(lia))
    as (dets2 & c2 & mj & dj & Ha2 & Hmj & Hpj & Hdj & Hj).
  rewrite Ha in Ha2. injection Ha2 as <- <-.
  exists dets', c', mi, mj, di, dj.
  repeat split; try assumption.
  rewrite Hi, Hj, Hn. reflexivity.
Qed.

(** C5: from a counter in [0, 100000] (in particular from 0) the counter
    stays in [0, 100000] over any number of calls and every identity the
    generator returns lies in [1, 100000]; hence, with one match per
    detection and predictions that carry non-negative identities, every
    detection leaves the assignment loop with a non-negative identity. *)
Theorem identities_valid (n : nat) (ms : list TMatch) (preds dets : Objects) (c : Z) :
  0 <= c <= 100000 ->
  length ms = length dets ->
  Forall (fun m => predId m = -1 \/ 0 <= predId m < Z.of_nat (length preds)) ms ->
  Forall (fun p => 0 <= m_id p) preds ->
  0 <= (mint n 0).2 <= 100000 /\
  0 <= (mint n c).2 <= 100000 /\
  Forall (fun id => 1 <= id <= 100000) (mint n c).1 /\
  exists dets' c',
    assignIdentities ms preds dets c = Some (dets', c') /\
    0 <= c' <= 100000 /\
    Forall (fun d => 0 <= m_id d) dets'.
Proof.
  intros Hc Hlen Hok Hpreds.
  assert (Hmint : forall k c0, 0 <= c0 <= 100000 -> 0 <= (mint k c0).2 <= 100000).
  { intros [|k] c0 Hc0; [exact Hc0|].
    rewrite mint_counter_S, nth_fresh_closed by (apply is_int_range, Hc0).
    pose proof (fresh_closed_range c0 k Hc0). lia. }
  split; [apply Hmint; lia|]. split; [apply Hmint, Hc|]. split.
  - apply Forall_lookup. intros j id Hj.
    assert (j < n)%nat as Hjn
      by (apply lookup_lt_Some in Hj; now rewrite mint_length in Hj).
    rewrite mint_lookup in Hj by exact Hjn. injection Hj as <-.
    rewrite nth_fresh_closed by (apply is_int_range, Hc).
    apply fresh_closed_range, Hc.
  - assert (Hwf : wf_matches ms preds dets) by (split; [lia | exact Hok]).
    destruct (assign_wf_Some ms preds dets c Hwf) as [[dets' c'] Ha].
    exists dets', c'. split; [exact Ha|].
    apply assign_char in Ha as (Hlen' & Hc' & _ & Hin).
    split; [rewrite Hc'; apply Hmint, Hc|].
    apply Forall_lookup. intros k d' Hd'.
    assert (k < length ms)%nat as Hk
      by (apply lookup_lt_Some in Hd'; lia).
    destruct (lookup_lt_is_Some_2 ms k Hk) as [m Hm].
    destruct (Hin k m Hm) as (d & id & _ & Hd'' & Hid).
    rewrite Hd' in Hd''. injection Hd'' as ->. cbn [set_m_id m_id].
    unfold assigned in Hid. destruct (predId m =? -1).
    + rewrite Hid, nth_fresh_closed by (apply is_int_range, Hc).
      pose proof (fresh_closed_range c (countNone (take k ms)) Hc). lia.
    + destruct Hid as (p & Hp & ->). apply vec_at_Some in Hp as [_ Hp].
      exact (proj1 (Forall_lookup _ _) Hpreds _ _ Hp).
Qed.

(** ** The overlap ratio *)

Lemma intersectionArea_self (a : Rect) :
  0 < width a -> 0 < height a -> intersectionArea a a = area a.
Proof.
  intros Hw Hh. unfold intersectionArea, area.
  rewrite !Z.max_id, !Z.min_id.
  destruct (x a + width a <=? x a) eqn:E1; [lia|].
  destruct (y a + height a <=? y a) eqn:E2; [lia|].
  cbn [orb]. f_equal; lia.
Qed.

(** C8, as amended: for every rectangle of positive width and height the
    overlap ratio of the rectangle with itself is 1. *)
Theorem overlapRatio_self (a : Rect) :
  0 < width a -> 0 < height a -> (overlapRatio a a == 1)%Q.
Proof.
  intros Hw Hh. unfold overlapRatio.
  rewrite intersectionArea_self by assumption.
  assert (Ha : 0 < area a) by (unfold area; lia).
  destruct (area a <=? 0) eqn:E1; [lia|].
  destruct (area a =? 0) eqn:E2; [lia|].
  cbn [orb]. rewrite Q.min_id.
  apply Qmult_inv_r. unfold Qeq. cbn. lia.
Qed.

(** C8, as stated, fails: the overlap ratio of a zero-area rectangle with
    itself is 0, not 1. *)
Lemma overlapRatio_self_degenerate :
  (overlapRatio emptyBox emptyBox == 0)%Q /\ ~ (overlapRatio emptyBox emptyBox == 1)%Q.
Proof.
  split.
  - reflexivity.
  - vm_compute. discriminate.
Qed.

(** ** The frame callback *)

Section NodeFacts.
Context `{api : ObjDetAPI}.

Lemma assign_match_first (preds dets : Objects) (c : Z) :
  exists dets' c',
    assignIdentities (MatcherOverlap_match 50 dets preds) preds dets c = Some (dets', c') /\
    length dets' = length dets /\
    forall d, dets !! 0%nat = Some d ->
      exists id, dets' !! 0%nat = Some (set_m_id d id).
Proof.
  destruct (assign_wf_Some _ preds dets c (match_wf 50 dets preds)) as [[dets' c'] Ha].
  exists dets', c'. split; [exact Ha|].
  apply assign_char in Ha as (Hlen & _ & _ & Hin). split; [exact Hlen|].
  intros d Hd.
  destruct (Hin 0%nat (matchOne 50 preds 0 d)) as (d1 & id & Hd1 & Hd' & _).
  { now rewrite match_lookup, Hd. }
  rewrite Hd in Hd1. injection Hd1 as <-. now exists id.
Qed.

(** C6: when decoding the incoming frame fails, the callback returns with the
    node exactly as it was (identity counter, buffers and detector), after no
    service request and no publication. *)
Theorem decode_failure_skips_frame (n : Node) (f : Frame) :
  toCvCopy f = None ->
  exists tr,
    newDataCallback n f = Returned n tr /\
    requests tr = [] /\ published tr = [].
Proof.
  intros Hdec. exists [EvError CvBridgeException].
  unfold newDataCallback. rewrite Hdec. repeat split.
Qed.

(** C9: once the frame is decoded and the clock has answered, the callback
    reads outside the detection vector exactly when the detector returned no
    detection; when it returned at least one, the callback returns and shows
    the box of the first detection. *)
Theorem first_detection_read (n : Node) (f : Frame) (image : Image) (reqTime : Z) :
  toCvCopy f = Some image ->
  waitForClock (now_sec f) = Some reqTime ->
  let dets := (runDetector n image (fetchPredictions n f reqTime).1).2 in
  (dets = [] -> newDataCallback n f = Undefined) /\
  (dets <> [] ->
   exists n' tr d0,
     newDataCallback n f = Returned n' tr /\
     dets !! 0%nat = Some d0 /\ last tr = Some (EvShow (m_bb d0))).
Proof.
  intros Hdec Hclock dets. unfold newDataCallback. rewrite Hdec, Hclock.
  subst dets. destruct (fetchPredictions n f reqTime) as [preds tr1]. cbn [fst].
  destruct (runDetector n image preds) as [detector2 dets]. cbn [snd].
  destruct (assign_match_first preds dets (lastObjectID n))
    as (dets' & c' & -> & Hlen & Hfirst).
  split.
  - intros ->. destruct dets'; [reflexivity | discriminate].
  - intros Hne. destruct dets as [|d0 dets]; [contradiction|].
    destruct (Hfirst d0 eq_refl) as [id ->].
    eexists _, _, d0. split; [reflexivity|]. split; [reflexivity|].
    rewrite !app_assoc. apply last_snoc.
Qed.

(** C3, as amended: when the call to the prediction service fails, the frame
    is processed with the prediction list the member [predictions] holds on
    entry, which the failed call leaves untouched: the callback has the same
    outcome, the same resulting node and the same trace as when the service
    answers with that list, except that the error report follows the service
    request in the trace; the list is still in the node afterwards. *)
Theorem service_failure_keeps_predictions (n : Node) (f : Frame) (image : Image)
    (reqTime : Z) (response : list DetectionMsg) :
  toCvCopy f = Some image ->
  waitForClock (now_sec f) = Some reqTime ->
  call f (makeRequest reqTime) = None ->
  detectionsToButObjects response = predictions n ->
  (newDataCallback n (withResponse f response) = Undefined /\
   newDataCallback n f = Undefined) \/
  (exists n' rest,
     newDataCallback n (withResponse f response)
       = Returned n' (EvCall (makeRequest reqTime) :: rest) /\
     newDataCallback n f
       = Returned n' (EvCall (makeRequest reqTime) :: EvError ServiceCallFailed :: rest) /\
     predictions n' = predictions n).
Proof.
  intros Hdec Hclock Hcall Hresp.
  unfold newDataCallback, withResponse. cbn [toCvCopy now_sec header].
  rewrite Hdec, Hclock. unfold fetchPredictions. cbn [call]. rewrite Hcall, Hresp.
  destruct (runDetector n image (predictions n)) as [detector2 dets].
  destruct (assignIdentities _ _ _ _) as [[dets' c']|]; [|left; split; reflexivity].
  destruct (dets' !! 0%nat) as [d0|]; [|left; split; reflexivity].
  right. eexists _, _. split; [reflexivity|]. split; reflexivity.
Qed.

End NodeFacts.

(** ** The claims on concrete frames *)

Example mint_three : mint 3 0 = ([1; 2; 3], 3).
Proof. reflexivity. Qed.

Example mint_wraps : (mint 2 99999).1 = [100000; 1].
Proof. reflexivity. Qed.

Example frameTracked_from_start :
  exists tr, @newDataCallback simAPI node0 frameTracked = Returned node1 tr.
Proof. eexists. reflexivity. Qed.

Example two_new_objects :
  assignIdentities (MatcherOverlap_match 50 [detA; detB] []) [] [detA; detB] 0
  = Some ([set_m_id detA 1; set_m_id detB 2], 2).
Proof. reflexivity. Qed.

Example below_minus_one_undefined :
  assignIdentities [mkMatch 0 (-2) 0] [tracked] [seen] 0 = None.
Proof. reflexivity. Qed.

(** C3, as stated, fails: after a frame whose predictions were fetched, a
    frame whose service call fails is matched against those earlier
    predictions and its detection inherits identity 7, whereas the same frame
    with an empty prediction list gives the detection the fresh identity 1. *)
Lemma stale_predictions_reused :
  (exists n tr,
     @run simAPI node0 [frameTracked; frameFailing] = Returned n tr /\
     published tr = [(1, [set_m_id seen 7]); (2, [set_m_id seen 7])]) /\
  (exists n tr,
     @run simAPI node0 [frameTracked; frameNoPredictions] = Returned n tr /\
     published tr = [(1, [set_m_id seen 7]); (2, [set_m_id seen 1])]) /\
  quiet (@newDataCallback simAPI node1 frameFailing)
  <> quiet (@newDataCallback simAPI node1 frameNoPredictions).
Proof.
  split; [|split].
  - eexists _, _. split; reflexivity.
  - eexists _, _. split; reflexivity.
  - vm_compute. discriminate.
Qed.

Lemma fresh_identity_kth_witness :
  (1 <= 2)%nat /\
  kth_identity 2 0 = Some 2 /\
  exists d, [set_m_id detA 1; set_m_id detB 2] !! 1%nat = Some d /\ m_id d = 2.
Proof.
  split; [lia|].
  destruct (fresh_identity_kth 2 ltac:(lia)) as [H1 H2].
  split; [exact H1|].
  exact (H2 (MatcherOverlap_match 50 [detA; detB] []) [] [detA; detB]
            [set_m_id detA 1; set_m_id detB 2] 2 1%nat
            (matchOne 50 [] 1 detB) eq_refl eq_refl eq_refl eq_refl).
Defined.

Lemma matched_detection_inherits_witness :
  wf_matches (MatcherOverlap_match 50 [seen] [tracked]) [tracked] [seen] /\
  exists dets' c' d p,
    assignIdentities (MatcherOverlap_match 50 [seen] [tracked]) [tracked] [seen] 0
      = Some (dets', c') /\
    vec_at [tracked] (predId (matchOne 50 [tracked] 0 seen)) = Some p /\
    dets' !! 0%nat = Some d /\ m_id d = m_id p.
Proof.
  assert (Hwf : wf_matches (MatcherOverlap_match 50 [seen] [tracked]) [tracked] [seen]).
  { split; [simpl; lia | forall_cases]. }
  split; [exact Hwf|].
  apply (matched_detection_inherits _ [tracked] [seen] 0 0%nat
           (matchOne 50 [tracked] 0 seen) Hwf).
  - reflexivity.
  - simpl. lia.
Defined.

Lemma assign_defined_only_if_witness :
  is_Some (assignIdentities (MatcherOverlap_match 50 [seen] [tracked]) [tracked] [seen] 0) /\
  (length (MatcherOverlap_match 50 [seen] [tracked]) <= length [seen])%nat /\
  Forall (fun m => 0 <= predId m -> predId m < Z.of_nat (length [tracked]))
    (MatcherOverlap_match 50 [seen] [tracked]).
Proof.
  destruct (assign_defined_only_if (MatcherOverlap_match 50 [seen] [tracked])
              [tracked] [seen] 0) as [Honly Hif].
  assert (H : is_Some (assignIdentities (MatcherOverlap_match 50 [seen] [tracked])
                         [tracked] [seen] 0)).
  { apply Hif; [simpl; lia | forall_cases | forall_cases]. }
  split; [exact H | exact (Honly H)].
Defined.

Lemma unmatched_identities_distinct_witness :
  wf_matches (MatcherOverlap_match 50 [detA; detB] []) [] [detA; detB] /\
  is_int 0 /\
  Z.of_nat (countNone (MatcherOverlap_match 50 [detA; detB] [])) <= 100000 /\
  exists dets' c',
    assignIdentities (MatcherOverlap_match 50 [detA; detB] []) [] [detA; detB] 0
      = Some (dets', c') /\
    c' = 2 /\
    exists di dj, dets' !! 0%nat = Some di /\ dets' !! 1%nat = Some dj /\ m_id di <> m_id dj.
Proof.
  assert (Hwf : wf_matches (MatcherOverlap_match 50 [detA; detB] []) [] [detA; detB]).
  { split; [simpl; lia | forall_cases]. }
  assert (Hint : is_int 0) by (unfold is_int, INT_MIN, INT_MAX; lia).
  assert (Hcount : Z.of_nat (countNone (MatcherOverlap_match 50 [detA; detB] [])) <= 100000)
    by (simpl; lia).
  split; [exact Hwf|]. split; [exact Hint|]. split; [exact Hcount|].
  destruct (unmatched_identities_distinct _ [] [detA; detB] 0 Hwf Hint Hcount)
    as (dets' & c' & Ha & Hc' & Hdistinct).
  exists dets', c'. split; [exact Ha|]. split; [exact Hc'|].
  apply (Hdistinct 0%nat 1%nat (matchOne 50 [] 0 detA) (matchOne 50 [] 1 detB));
    [lia | reflexivity | reflexivity | reflexivity | reflexivity].
Defined.

Lemma identities_valid_witness :
  0 <= 0 <= 100000 /\
  length (MatcherOverlap_match 50 [seen; detA] [tracked]) = length [seen; detA] /\
  0 <= (mint 3 0).2 <= 100000 /\
  Forall (fun id => 1 <= id <= 100000) (mint 3 0).1 /\
  exists dets' c',
    assignIdentities (MatcherOverlap_match 50 [seen; detA] [tracked]) [tracked] [seen; detA] 0
      = Some (dets', c') /\
    0 <= c' <= 100000 /\
    Forall (fun d => 0 <= m_id d) dets'.
Proof.
  assert (Hc : 0 <= 0 <= 100000) by lia.
  assert (Hlen : length (MatcherOverlap_match 50 [seen; detA] [tracked]) = length [seen; detA])
    by reflexivity.
  split; [exact Hc|]. split; [exact Hlen|].
  refine (proj2 (identities_valid 3 _ [tracked] [seen; detA] 0 Hc Hlen _ _)).
  - forall_cases.
  - forall_cases.
Defined.

Lemma match_one_per_detection_witness :
  [seen; detA] !! 1%nat = Some detA /\
  exists m, MatcherOverlap_match 50 [seen; detA] [tracked] !! 1%nat = Some m /\
    detId m = 1 /\ (predId m = -1 \/ 0 <= predId m < 1).
Proof.
  split; [reflexivity|].
  exact (proj2 (match_one_per_detection 50 [seen; detA] [tracked]) 1%nat detA eq_refl).
Defined.

Lemma overlapRatio_self_witness :
  0 < width (mkRect 10 10 20 20) /\ 0 < height (mkRect 10 10 20 20) /\
  (overlapRatio (mkRect 10 10 20 20) (mkRect 10 10 20 20) == 1)%Q.
Proof.
  assert (Hw : 0 < width (mkRect 10 10 20 20)) by (simpl; lia).
  assert (Hh : 0 < height (mkRect 10 10 20 20)) by (simpl; lia).
  split; [exact Hw|]. split; [exact Hh|].
  exact (overlapRatio_self (mkRect 10 10 20 20) Hw Hh).
Defined.

Lemma decode_failure_skips_frame_witness :
  @toCvCopy simAPI frameBroken = None /\
  exists tr,
    @newDataCallback simAPI node1 frameBroken = Returned node1 tr /\
    requests tr = [] /\ published tr = [].
Proof.
  split; [reflexivity|].
  exact (@decode_failure_skips_frame simAPI node1 frameBroken eq_refl).
Defined.

Lemma first_detection_read_witness :
  @toCvCopy simAPI frameTracked = Some [seen] /\
  waitForClock (@now_sec simAPI frameTracked) = Some 5 /\
  exists n' tr d0,
    @newDataCallback simAPI node0 frameTracked = Returned n' tr /\
    [seen] !! 0%nat = Some d0 /\ last tr = Some (EvShow (m_bb d0)).
Proof.
  split; [reflexivity|]. split; [reflexivity|].
  refine (proj2 (@first_detection_read simAPI node0 frameTracked [seen] 5 eq_refl eq_refl) _).
  simpl. discriminate.
Defined.

Lemma service_failure_keeps_predictions_witness :
  @toCvCopy simAPI frameFailing = Some [seen] /\
  waitForClock (@now_sec simAPI frameFailing) = Some 6 /\
  @call simAPI frameFailing (makeRequest 6) = None /\
  @detectionsToButObjects simAPI [tracked] = @predictions simAPI node1 /\
  ((@newDataCallback simAPI node1 (withResponse frameFailing [tracked]) = Undefined /\
    @newDataCallback simAPI node1 frameFailing = Undefined) \/
   (exists n' rest,
      @newDataCallback simAPI node1 (withResponse frameFailing [tracked])
        = Returned n' (EvCall (makeRequest 6) :: rest) /\
      @newDataCallback simAPI node1 frameFailing
        = Returned n' (EvCall (makeRequest 6) :: EvError ServiceCallFailed :: rest) /\
      @predictions simAPI n' = @predictions simAPI node1)).
Proof.
  split; [reflexivity|]. split; [reflexivity|]. split; [reflexivity|].
  split; [reflexivity|].
  exact (@service_failure_keeps_predictions simAPI node1 frameFailing [seen] 6
           [tracked] eq_refl eq_refl eq_refl eq_refl).
Defined.

(** ** Further facts: the identity generator on any counter *)

Lemma mint_counter_range (k : nat) (c : Z) :
  0 <= c <= 100000 -> 0 <= (mint k c).2 <= 100000.
Proof.
  intros Hc. destruct k as [|k]; [exact Hc|].
  rewrite mint_counter_S, nth_fresh_closed by (apply is_int_range, Hc).
  pose proof (fresh_closed_range c k Hc). lia.
Qed.

(** X1: whatever [int] the counter holds, the increment of [getNewObjectID]
    does not overflow: the call returns 1 when the counter is at or above
    100000 and the counter plus one otherwise, stores what it returns, and so
    never returns more than 100000. *)
Theorem getNewObjectID_no_overflow (c : Z) :
  is_int c ->
  (getNewObjectID c).1 = (if c >=? 100000 then 1 else c + 1) /\
  (getNewObjectID c).2 = (getNewObjectID c).1 /\
  is_int (getNewObjectID c).1 /\
  (getNewObjectID c).1 <= 100000.
Proof.
  intros Hc. pose proof (getNewObjectID_int c Hc) as Hint.
  rewrite getNewObjectID_eq in * by exact Hc. cbn [fst snd] in *.
  repeat split; try exact Hint; try apply Hint.
  destruct (c >=? 100000) eqn:E; lia.
Qed.

(** X2: below the cap the generator only counts: from a counter [c] below
    100000, the call that follows [j] earlier calls returns [c + j + 1] as
    long as [c + j] stays below 100000.  The guard bounds identities from
    above only: a negative counter yields identities that are not positive. *)
Theorem nth_fresh_linear (c : Z) (j : nat) :
  is_int c -> c + Z.of_nat j < 100000 ->
  nth_fresh j c = c + Z.of_nat j + 1.
Proof.
  intros Hc Hj. rewrite nth_fresh_closed by exact Hc. unfold fresh_closed.
  split_ifs; try lia; Z.div_mod_to_equations; lia.
Qed.

(** X3: from a non-negative counter the identities repeat with period
    100000: the call that follows [j + 100000] earlier calls returns what the
    call that follows [j] earlier calls returns. *)
Theorem nth_fresh_period (c : Z) (j : nat) :
  is_int c -> 0 <= c ->
  nth_fresh (j + Z.to_nat 100000) c = nth_fresh j c.
Proof.
  intros Hc Hc0. rewrite !nth_fresh_closed by exact Hc. unfold fresh_closed.
  rewrite Nat2Z.inj_add, Z2Nat.id by lia.
  split_ifs; try lia; Z.div_mod_to_equations; lia.
Qed.

(** X4: from a counter in [0, 100000], every identity between 1 and 100000
    is returned by one of the next 100000 calls. *)
Theorem nth_fresh_covers (c v : Z) :
  0 <= c <= 100000 -> 1 <= v <= 100000 ->
  exists j : nat, Z.of_nat j < 100000 /\ nth_fresh j c = v.
Proof.
  intros Hc Hv.
  set (c0 := if c >=? 100000 then 0 else c).
  assert (Hc0 : 0 <= c0 < 100000) by (unfold c0; destruct (c >=? 100000) eqn:E; lia).
  exists (Z.to_nat ((v - 1 - c0) mod 100000)).
  assert (Hr : 0 <= (v - 1 - c0) mod 100000 < 100000) by (apply Z.mod_pos_bound; lia).
  rewrite Z2Nat.id by lia. split; [lia|].
  rewrite nth_fresh_closed by (apply is_int_range, Hc). unfold fresh_closed.
  fold c0. rewrite Z2Nat.id by lia.
  destruct (c0 + (v - 1 - c0) mod 100000 <? 0) eqn:E; [lia|].
  clear E. Z.div_mod_to_equations. lia.
Qed.

(** ** Further facts: the assignment loop *)

Lemma set_m_id_same (d : BUTObject) : set_m_id d (m_id d) = d.
Proof. destruct d. reflexivity. Qed.

Lemma assign_pointwise (ms : list TMatch) (preds dets : Objects) (c : Z)
    (dets' : Objects) (c' : Z) (j : nat) (d : BUTObject) :
  assignIdentities ms preds dets c = Some (dets', c') ->
  dets !! j = Some d ->
  exists id, dets' !! j = Some (set_m_id d id) /\
    ((length ms <= j)%nat -> id = m_id d).
Proof.
  intros Ha Hd. apply assign_char in Ha as (_ & _ & Hout & Hin).
  destruct (decide (j < length ms)%nat) as [Hj|Hj].
  - destruct (lookup_lt_is_Some_2 ms j Hj) as [m Hm].
    destruct (Hin j m Hm) as (d1 & id & Hd1 & Hd' & _).
    rewrite Hd in Hd1. injection Hd1 as <-.
    exists id. split; [exact Hd'|lia].
  - exists (m_id d). rewrite set_m_id_same, Hout by lia. auto.
Qed.

Lemma countNone_none (ms : list TMatch) :
  Forall (fun m => predId m <> -1) ms -> countNone ms = 0%nat.
Proof.
  induction 1 as [|m ms Hm _ IH]; [reflexivity|].
  cbn [countNone]. destruct (predId m =? -1) eqn:E; [lia | exact IH].
Qed.

(** X5: the assignment loop writes identities only: it keeps the number of
    detections, the class and the box of every detection, and leaves every
    detection beyond the last match exactly as it was. *)
Theorem assign_writes_identities_only (ms : list TMatch) (preds dets : Objects) (c : Z) :
  wf_matches ms preds dets ->
  exists dets' c',
    assignIdentities ms preds dets c = Some (dets', c') /\
    length dets' = length dets /\
    forall (j : nat) (d : BUTObject), dets !! j = Some d ->
      exists d', dets' !! j = Some d' /\
        m_class d' = m_class d /\ m_bb d' = m_bb d /\
        ((length ms <= j)%nat -> d' = d).
Proof.
  intros Hwf.
  destruct (assign_wf_Some ms preds dets c Hwf) as [[dets' c'] Ha].
  exists dets', c'. split; [exact Ha|].
  split; [apply (assign_char _ _ _ _ _ _ Ha)|].
  intros j d Hd.
  destruct (assign_pointwise _ _ _ _ _ _ j d Ha Hd) as (id & Hd' & Hid).
  exists (set_m_id d id). repeat split; [exact Hd'|].
  intros Hj. rewrite (Hid Hj). apply set_m_id_same.
Qed.

(** X6: when every match of a batch references a prediction, the loop never
    calls the generator: the identity counter is left as it was. *)
Theorem all_matched_keeps_counter (ms : list TMatch) (preds dets : Objects) (c : Z) :
  wf_matches ms preds dets ->
  Forall (fun m => predId m <> -1) ms ->
  exists dets',
    assignIdentities ms preds dets c = Some (dets', c).
Proof.
  intros Hwf Hall.
  destruct (assign_wf_Some ms preds dets c Hwf) as [[dets' c'] Ha].
  exists dets'. rewrite Ha.
  apply assign_char in Ha as (_ & -> & _).
  now rewrite countNone_none by exact Hall.
Qed.

(** X7: two detections of one batch whose matches reference the same
    prediction leave the loop with the same identity. *)
Theorem same_prediction_same_identity (ms : list TMatch) (preds dets : Objects) (c : Z)
    (i j : nat) (mi mj : TMatch) :
  wf_matches ms preds dets ->
  ms !! i = Some mi -> ms !! j = Some mj ->
  predId mi <> -1 -> predId mj = predId mi ->
  exists dets' c' di dj,
    assignIdentities ms preds dets c = Some (dets', c') /\
    dets' !! i = Some di /\ dets' !! j = Some dj /\ m_id di = m_id dj.
Proof.
  intros Hwf Hi Hj Hmi Hmj.
  destruct (assign_wf_Some ms preds dets c Hwf) as [[dets' c'] Ha].
  destruct (assign_char _ _ _ _ _ _ Ha) as (_ & _ & _ & Hin).
  destruct (Hin i mi Hi) as (di & idi & _ & Hdi & Hai).
  destruct (Hin j mj Hj) as (dj & idj & _ & Hdj & Haj).
  unfold assigned in Hai, Haj. rewrite Hmj in Haj.
  destruct (predId mi =? -1) eqn:E; [lia|].
  destruct Hai as (p & Hp & ->). destruct Haj as (q & Hq & ->).
  rewrite Hp in Hq. injection Hq as <-.
  exists dets', c', (set_m_id di (m_id p)), (set_m_id dj (m_id p)). auto.
Qed.

(** X8: in a batch where no match references a prediction, started at a
    counter [c] in [0, 100000], the detection at index [k] receives the
    identity [((c + k) mod 100000) + 1]: fresh identities are consecutive in
    detection order. *)
Theorem all_unmatched_consecutive (ms : list TMatch) (preds dets : Objects) (c : Z) :
  wf_matches ms preds dets ->
  0 <= c <= 100000 ->
  Forall (fun m => predId m = -1) ms ->
  exists dets' c',
    assignIdentities ms preds dets c = Some (dets', c') /\
    forall (k : nat) (d : BUTObject),
      (k < length ms)%nat -> dets !! k = Some d ->
      dets' !! k = Some (set_m_id d ((c + Z.of_nat k) mod 100000 + 1)).
Proof.
  intros Hwf Hc Hall.
  destruct (assign_wf_Some ms preds dets c Hwf) as [[dets' c'] Ha].
  exists dets', c'. split; [exact Ha|].
  apply assign_char in Ha as (_ & _ & _ & Hin).
  intros k d Hk Hd.
  destruct (lookup_lt_is_Some_2 ms k Hk) as [m Hm].
  destruct (Hin k m Hm) as (d1 & id & Hd1 & Hd' & Hid).
  rewrite Hd in Hd1. injection Hd1 as <-. rewrite Hd'. do 2 f_equal.
  unfold assigned in Hid.
  rewrite (proj1 (Forall_lookup _ _) Hall k m Hm) in Hid. cbn [Z.eqb Pos.eqb] in Hid.
  rewrite countNone_all in Hid by (apply Forall_take, Hall).
  rewrite length_take, Nat.min_l in Hid by lia.
  rewrite Hid, nth_fresh_closed by (apply is_int_range, Hc). unfold fresh_closed.
  split_ifs; try lia; Z.div_mod_to_equations; lia.
Qed.

(** ** Further facts: the wait for the clock *)

Lemma waitForClock_facts (readings : list Z) :
  (waitForClock readings = None <-> Forall (fun r => r = 0) readings) /\
  forall t, waitForClock readings = Some t ->
    t <> 0 /\
    exists k : nat, readings !! k = Some t /\
      forall j : nat, (j < k)%nat -> readings !! j = Some 0.
Proof.
  induction readings as [|r rs [IHn IHs]].
  - split; [split; [constructor | reflexivity] | discriminate].
  - cbn [waitForClock]. destruct (r =? 0) eqn:E.
    + assert (r = 0) as -> by lia. split.
      * rewrite IHn. split.
        -- intros H. now constructor.
        -- intros H. now inversion H.
      * intros t Ht. destruct (IHs t Ht) as (Hnz & k & Hk & Hbefore).
        split; [exact Hnz|]. exists (S k). split; [exact Hk|].
        intros [|j] Hj; [reflexivity|]. apply Hbefore. lia.
    + split.
      * split; [discriminate|]. intros H. inversion H. lia.
      * intros t [= <-]. split; [lia|]. exists 0%nat. split; [reflexivity|].
        intros j Hj. lia.
Qed.

(** X9: the wait for the clock ends with the first reading that is not 0,
    after zero readings only, and it never ends exactly when every reading
    is 0. *)
Theorem waitForClock_first_nonzero (readings : list Z) :
  (waitForClock readings = None <-> Forall (fun r => r = 0) readings) /\
  forall t, waitForClock readings = Some t ->
    t <> 0 /\
    exists k : nat, readings !! k = Some t /\
      forall j : nat, (j < k)%nat -> readings !! j = Some 0.
Proof.
  split.
  - apply waitForClock_facts.
  - intros t Ht. now apply waitForClock_facts.
Qed.

(** ** Further facts: the frame callback *)

Section FrameFacts.
Context `{api : ObjDetAPI}.

Lemma callback_decoded (n : Node) (f : Frame) (image : Image) (t : Z) :
  toCvCopy f = Some image ->
  waitForClock (now_sec f) = Some t ->
  let preds := (fetchPredictions n f t).1 in
  let dets := (runDetector n image preds).2 in
  newDataCallback n f =
  match assignIdentities (MatcherOverlap_match 50 dets preds) preds dets (lastObjectID n) with
  | None => Undefined
  | Some (dets', c') =>
      match dets' !! 0%nat with
      | None => Undefined
      | Some d0 =>
          Returned
            {| sampleDetector := (runDetector n image preds).1; predictions := preds;
               detections := dets'; lastObjectID := c' |}
            ((fetchPredictions n f t).2
             ++ [EvPublish (header f) (butObjectsToDetections dets' (header f))]
             ++ [EvShow (m_bb d0)])
      end
  end.
Proof.
  intros Hdec Hclock preds dets. subst preds dets.
  unfold newDataCallback. rewrite Hdec, Hclock.
  destruct (fetchPredictions n f t) as [preds tr1]. cbn [fst snd].
  destruct (runDetector n image preds) as [detector2 dets]. reflexivity.
Qed.

Lemma callback_counter_range (n n' : Node) (f : Frame) (tr : list Event) :
  0 <= lastObjectID n <= 100000 ->
  newDataCallback n f = Returned n' tr ->
  0 <= lastObjectID n' <= 100000.
Proof.
  intros Hc H. destruct (toCvCopy f) as [image|] eqn:Hdec.
  - destruct (waitForClock (now_sec f)) as [t|] eqn:Hclock.
    + rewrite (callback_decoded n f image t Hdec Hclock) in H. cbv zeta in H.
      destruct (assignIdentities _ _ _ _) as [[dets' c']|] eqn:Ha; [|discriminate].
      destruct (dets' !! 0%nat); [|discriminate].
      injection H as <- _. cbn [lastObjectID].
      apply assign_char in Ha as (_ & -> & _). apply mint_counter_range, Hc.
    + unfold newDataCallback in H. rewrite Hdec, Hclock in H. discriminate.
  - unfold newDataCallback in H. rewrite Hdec in H. injection H as <- _. exact Hc.
Qed.

Lemma run_app (fs1 fs2 : list Frame) (n : Node) :
  run n (fs1 ++ fs2) =
  match run n fs1 with
  | Returned n1 tr1 =>
      match run n1 fs2 with
      | Returned n2 tr2 => Returned n2 (tr1 ++ tr2)
      | Undefined => Undefined
      | Stalled => Stalled
      end
  | Undefined => Undefined
  | Stalled => Stalled
  end.
Proof.
  revert n. induction fs1 as [|f fs1 IH]; intros n.
  - cbn [app run]. destruct (run n fs2); reflexivity.
  - cbn [app run]. destruct (newDataCallback n f) as [n0 tr0| |]; try reflexivity.
    rewrite IH. destruct (run n0 fs1) as [n1 tr1| |]; try reflexivity.
    destruct (run n1 fs2) as [n2 tr2| |]; try reflexivity.
    now rewrite app_assoc.
Qed.

(** X10: a frame that is decoded, with a clock that answers and a detector
    that returns at least one detection, makes the callback return after
    exactly one service request (stamped with the non-zero clock reading, no
    object and no class filter), an error report only if that request
    failed, then exactly one publication, which carries the frame's header
    and the detections as the node holds them afterwards, then the display
    of the first detection's box. *)
Theorem frame_trace (n : Node) (f : Frame) (image : Image) (t : Z) :
  toCvCopy f = Some image ->
  waitForClock (now_sec f) = Some t ->
  (runDetector n image (fetchPredictions n f t).1).2 <> [] ->
  exists n' tr d0,
    newDataCallback n f = Returned n' tr /\
    (runDetector n image (fetchPredictions n f t).1).2 !! 0%nat = Some d0 /\
    t <> 0 /\
    tr = EvCall {| stamp_sec := t; object_id := -1; class_id := -1 |}
         :: match call f (makeRequest t) with
            | Some _ => []
            | None => [EvError ServiceCallFailed]
            end
         ++ [EvPublish (header f) (butObjectsToDetections (detections n') (header f));
             EvShow (m_bb d0)].
Proof.
  intros Hdec Hclock Hne.
  rewrite (callback_decoded n f image t Hdec Hclock). cbv zeta.
  assert (Ht : t <> 0) by (apply (proj2 (waitForClock_facts _) t Hclock)).
  assert (Htr : (fetchPredictions n f t).2
                = EvCall {| stamp_sec := t; object_id := -1; class_id := -1 |}
                  :: match call f (makeRequest t) with
                     | Some _ => []
                     | None => [EvError ServiceCallFailed]
                     end).
  { unfold fetchPredictions. destruct (call f (makeRequest t)); reflexivity. }
  rewrite Htr. clear Htr.
  set (preds := (fetchPredictions n f t).1) in *.
  destruct (runDetector n image preds) as [detector2 dets]. cbn [fst snd] in *.
  destruct (assign_match_first preds dets (lastObjectID n))
    as (dets' & c' & -> & _ & Hfirst).
  destruct dets as [|d0 dets]; [contradiction|].
  destruct (Hfirst d0 eq_refl) as [id ->].
  eexists _, _, d0. split; [reflexivity|]. split; [reflexivity|].
  split; [exact Ht|]. cbn [detections set_m_id m_bb].
  destruct (call f (makeRequest t)); reflexivity.
Qed.

(** X11: under the same conditions the node afterwards holds the detector's
    new state, the predictions the callback worked with, and the detector's
    detections in the same number and order, each with its class and box
    untouched: the callback changes identities only. *)
Theorem frame_node (n : Node) (f : Frame) (image : Image) (t : Z) :
  toCvCopy f = Some image ->
  waitForClock (now_sec f) = Some t ->
  (runDetector n image (fetchPredictions n f t).1).2 <> [] ->
  exists n' tr,
    newDataCallback n f = Returned n' tr /\
    sampleDetector n' = (runDetector n image (fetchPredictions n f t).1).1 /\
    predictions n' = (fetchPredictions n f t).1 /\
    length (detections n') = length (runDetector n image (fetchPredictions n f t).1).2 /\
    forall (j : nat) (d : BUTObject),
      (runDetector n image (fetchPredictions n f t).1).2 !! j = Some d ->
      exists d', detections n' !! j = Some d' /\
        m_class d' = m_class d /\ m_bb d' = m_bb d.
Proof.
  intros Hdec Hclock Hne.
  rewrite (callback_decoded n f image t Hdec Hclock). cbv zeta.
  set (preds := (fetchPredictions n f t).1) in *.
  destruct (runDetector n image preds) as [detector2 dets]. cbn [fst snd] in *.
  destruct (assign_match_first preds dets (lastObjectID n))
    as (dets' & c' & Ha & Hlen & Hfirst).
  rewrite Ha.
  destruct dets as [|d0 dets]; [contradiction|].
  destruct (Hfirst d0 eq_refl) as [id ->].
  eexists _, _. split; [reflexivity|]. cbn [sampleDetector predictions detections].
  repeat split; [exact Hlen|].
  intros j d Hd.
  destruct (assign_pointwise _ _ _ _ _ _ j d Ha Hd) as (id' & Hd' & _).
  exists (set_m_id d id'). auto.
Qed.

(** X12: when the service call succeeds, the predictions the node retained
    from earlier frames play no part: the callback does the same, and leaves
    the same node, whatever the member [predictions] held on entry. *)
Theorem fetch_replaces_predictions (n : Node) (f : Frame) (image : Image) (t : Z)
    (response : list DetectionMsg) (ps : Objects) :
  toCvCopy f = Some image ->
  waitForClock (now_sec f) = Some t ->
  call f (makeRequest t) = Some response ->
  newDataCallback (withPredictions n ps) f = newDataCallback n f.
Proof.
  intros Hdec Hclock Hcall.
  unfold newDataCallback, fetchPredictions, runDetector, withPredictions.
  cbn [sampleDetector predictions detections lastObjectID].
  rewrite Hdec, Hclock, Hcall. reflexivity.
Qed.

(** X13: on a decoded frame the callback waits forever exactly when every
    reading of the clock is 0. *)
Theorem stalls_iff_clock_zero (n : Node) (f : Frame) (image : Image) :
  toCvCopy f = Some image ->
  (newDataCallback n f = Stalled <-> Forall (fun r => r = 0) (now_sec f)).
Proof.
  intros Hdec.
  rewrite <- (proj1 (waitForClock_facts (now_sec f))).
  destruct (waitForClock (now_sec f)) as [t|] eqn:Hclock.
  - rewrite (callback_decoded n f image t Hdec Hclock). cbv zeta.
    destruct (assignIdentities _ _ _ _) as [[dets' c']|].
    + destruct (dets' !! 0%nat); split; discriminate.
    + split; discriminate.
  - unfold newDataCallback. rewrite Hdec, Hclock. split; reflexivity.
Qed.

(** X14: over any sequence of frames, a node whose identity counter lies in
    [0, 100000] still has its counter in [0, 100000] when the run returns. *)
Theorem run_keeps_counter_in_range (fs : list Frame) (n n' : Node) (tr : list Event) :
  0 <= lastObjectID n <= 100000 ->
  run n fs = Returned n' tr ->
  0 <= lastObjectID n' <= 100000.
Proof.
  revert n tr. induction fs as [|f fs IH]; intros n tr Hc H.
  - cbn in H. injection H as <- _. exact Hc.
  - cbn [run] in H.
    destruct (newDataCallback n f) as [n1 tr1| |] eqn:Hf; try discriminate.
    destruct (run n1 fs) as [n2 tr2| |] eqn:Hrest; try discriminate.
    injection H as <- _.
    eapply IH; [|exact Hrest]. eapply callback_counter_range; eauto.
Qed.

(** X15: a frame that cannot be decoded leaves no mark on a run: the run
    with the frame ends in the same outcome and the same node as the run
    without it, and when it returns its trace is the trace without the frame
    with the one decoding error report inserted at the frame's position. *)
Theorem undecodable_frame_leaves_no_mark (fs1 fs2 : list Frame) (b : Frame) (n : Node) :
  toCvCopy b = None ->
  match run n fs1 with
  | Returned n1 tr1 =>
      match run n1 fs2 with
      | Returned n2 tr2 =>
          run n (fs1 ++ fs2) = Returned n2 (tr1 ++ tr2) /\
          run n (fs1 ++ b :: fs2)
            = Returned n2 (tr1 ++ EvError CvBridgeException :: tr2)
      | Undefined =>
          run n (fs1 ++ fs2) = Undefined /\ run n (fs1 ++ b :: fs2) = Undefined
      | Stalled =>
          run n (fs1 ++ fs2) = Stalled /\ run n (fs1 ++ b :: fs2) = Stalled
      end
  | Undefined =>
      run n (fs1 ++ fs2) = Undefined /\ run n (fs1 ++ b :: fs2) = Undefined
  | Stalled =>
      run n (fs1 ++ fs2) = Stalled /\ run n (fs1 ++ b :: fs2) = Stalled
  end.
Proof.
  intros Hb. rewrite !run_app.
  destruct (run n fs1) as [n1 tr1| |]; [|split; reflexivity|split; reflexivity].
  assert (Hcb : newDataCallback n1 b = Returned n1 [EvError CvBridgeException])
    by (unfold newDataCallback; now rewrite Hb).
  cbn [run]. rewrite Hcb.
  destruct (run n1 fs2) as [n2 tr2| |]; split; reflexivity.
Qed.

End FrameFacts.

(** ** The further facts on concrete inputs *)

Lemma getNewObjectID_no_overflow_witness :
  is_int INT_MAX /\
  (getNewObjectID INT_MAX).1 = 1 /\
  (getNewObjectID INT_MAX).2 = (getNewObjectID INT_MAX).1 /\
  is_int (getNewObjectID INT_MAX).1 /\
  (getNewObjectID INT_MAX).1 <= 100000.
Proof.
  assert (H : is_int INT_MAX) by (unfold is_int, INT_MIN, INT_MAX; lia).
  split; [exact H|]. exact (getNewObjectID_no_overflow INT_MAX H).
Defined.

Lemma nth_fresh_linear_witness :
  is_int (-3) /\ -3 + Z.of_nat 2 < 100000 /\ nth_fresh 2 (-3) = 0.
Proof.
  assert (H : is_int (-3)) by (unfold is_int, INT_MIN, INT_MAX; lia).
  assert (H2 : -3 + Z.of_nat 2 < 100000) by (simpl; lia).
  split; [exact H|]. split; [exact H2|].
  exact (nth_fresh_linear (-3) 2 H H2).
Defined.

Lemma nth_fresh_period_witness :
  is_int 7 /\ 0 <= 7 /\ nth_fresh (1 + Z.to_nat 100000) 7 = nth_fresh 1 7.
Proof.
  assert (H : is_int 7) by (unfold is_int, INT_MIN, INT_MAX; lia).
  assert (H0 : 0 <= 7) by lia.
  split; [exact H|]. split; [exact H0|].
  exact (nth_fresh_period 7 1 H H0).
Defined.

Lemma nth_fresh_covers_witness :
  0 <= 99999 <= 100000 /\ 1 <= 5 <= 100000 /\
  exists j : nat, Z.of_nat j < 100000 /\ nth_fresh j 99999 = 5.
Proof.
  assert (Hc : 0 <= 99999 <= 100000) by lia.
  assert (Hv : 1 <= 5 <= 100000) by lia.
  split; [exact Hc|]. split; [exact Hv|].
  exact (nth_fresh_covers 99999 5 Hc Hv).
Defined.

Lemma assign_writes_identities_only_witness :
  wf_matches (MatcherOverlap_match 50 [seen; detA] [tracked]) [tracked] [seen; detA] /\
  exists dets' c',
    assignIdentities (MatcherOverlap_match 50 [seen; detA] [tracked]) [tracked]
      [seen; detA] 0 = Some (dets', c') /\
    length dets' = 2%nat /\
    exists d', dets' !! 1%nat = Some d' /\
      m_class d' = m_class detA /\ m_bb d' = m_bb detA.
Proof.
  assert (Hwf : wf_matches (MatcherOverlap_match 50 [seen; detA] [tracked])
                  [tracked] [seen; detA]).
  { split; [simpl; lia | forall_cases]. }
  split; [exact Hwf|].
  destruct (assign_writes_identities_only _ [tracked] [seen; detA] 0 Hwf)
    as (dets' & c' & Ha & Hlen & Hkeep).
  exists dets', c'. split; [exact Ha|]. split; [exact Hlen|].
  destruct (Hkeep 1%nat detA eq_refl) as (d' & Hd' & Hcl & Hbb & _).
  exists d'. auto.
Defined.

Lemma all_matched_keeps_counter_witness :
  wf_matches (MatcherOverlap_match 50 [seen] [tracked]) [tracked] [seen] /\
  Forall (fun m => predId m <> -1) (MatcherOverlap_match 50 [seen] [tracked]) /\
  exists dets',
    assignIdentities (MatcherOverlap_match 50 [seen] [tracked]) [tracked] [seen] 41
    = Some (dets', 41).
Proof.
  assert (Hwf : wf_matches (MatcherOverlap_match 50 [seen] [tracked]) [tracked] [seen]).
  { split; [simpl; lia | forall_cases]. }
  assert (Hall : Forall (fun m => predId m <> -1) (MatcherOverlap_match 50 [seen] [tracked])).
  { forall_cases. }
  split; [exact Hwf|]. split; [exact Hall|].
  exact (all_matched_keeps_counter _ [tracked] [seen] 41 Hwf Hall).
Defined.

Lemma same_prediction_same_identity_witness :
  wf_matches (MatcherOverlap_match 50 [seen; seen] [tracked]) [tracked] [seen; seen] /\
  exists dets' c' di dj,
    assignIdentities (MatcherOverlap_match 50 [seen; seen] [tracked]) [tracked]
      [seen; seen] 0 = Some (dets', c') /\
    dets' !! 0%nat = Some di /\ dets' !! 1%nat = Some dj /\ m_id di = m_id dj.
Proof.
  assert (Hwf : wf_matches (MatcherOverlap_match 50 [seen; seen] [tracked])
                  [tracked] [seen; seen]).
  { split; [simpl; lia | forall_cases]. }
  split; [exact Hwf|].
  apply (same_prediction_same_identity _ [tracked] [seen; seen] 0 0%nat 1%nat
           (matchOne 50 [tracked] 0 seen) (matchOne 50 [tracked] 1 seen) Hwf);
    [reflexivity | reflexivity | simpl; lia | reflexivity].
Defined.

Lemma all_unmatched_consecutive_witness :
  wf_matches (MatcherOverlap_match 50 [detA; detB] []) [] [detA; detB] /\
  0 <= 99999 <= 100000 /\
  Forall (fun m => predId m = -1) (MatcherOverlap_match 50 [detA; detB] []) /\
  exists dets' c',
    assignIdentities (MatcherOverlap_match 50 [detA; detB] []) [] [detA; detB] 99999
      = Some (dets', c') /\
    dets' !! 1%nat = Some (set_m_id detB 1).
Proof.
  assert (Hwf : wf_matches (MatcherOverlap_match 50 [detA; detB] []) [] [detA; detB]).
  { split; [simpl; lia | forall_cases]. }
  assert (Hc : 0 <= 99999 <= 100000) by lia.
  assert (Hall : Forall (fun m => predId m = -1) (MatcherOverlap_match 50 [detA; detB] [])).
  { forall_cases. }
  split; [exact Hwf|]. split; [exact Hc|]. split; [exact Hall|].
  destruct (all_unmatched_consecutive _ [] [detA; detB] 99999 Hwf Hc Hall)
    as (dets' & c' & Ha & Hk).
  exists dets', c'. split; [exact Ha|].
  apply (Hk 1%nat detB); [simpl; lia | reflexivity].
Defined.

Lemma waitForClock_first_nonzero_witness :
  waitForClock [0; 5] = Some 5 /\
  5 <> 0 /\
  exists k : nat, [0; 5] !! k = Some 5 /\
    forall j : nat, (j < k)%nat -> [0; 5] !! j = Some 0.
Proof.
  split; [reflexivity|].
  exact (proj2 (waitForClock_first_nonzero [0; 5]) 5 eq_refl).
Defined.

Lemma frame_trace_witness :
  @toCvCopy simAPI frameFailing = Some [seen] /\
  waitForClock (@now_sec simAPI frameFailing) = Some 6 /\
  exists n' tr d0,
    @newDataCallback simAPI node1 frameFailing = Returned n' tr /\
    [seen] !! 0%nat = Some d0 /\
    6 <> 0 /\
    tr = [@EvCall simAPI {| stamp_sec := 6; object_id := -1; class_id := -1 |};
          @EvError simAPI ServiceCallFailed;
          @EvPublish simAPI 2 (@detections simAPI n'); @EvShow simAPI (m_bb d0)].
Proof.
  split; [reflexivity|]. split; [reflexivity|].
  refine (@frame_trace simAPI node1 frameFailing [seen] 6 eq_refl eq_refl _).
  simpl. discriminate.
Defined.

Lemma frame_node_witness :
  @toCvCopy simAPI frameTracked = Some [seen] /\
  waitForClock (@now_sec simAPI frameTracked) = Some 5 /\
  exists n' tr,
    @newDataCallback simAPI node0 frameTracked = Returned n' tr /\
    @sampleDetector simAPI n' = tt /\
    @predictions simAPI n' = [tracked] /\
    length (@detections simAPI n') = 1%nat /\
    forall (j : nat) (d : BUTObject), [seen] !! j = Some d ->
      exists d', @detections simAPI n' !! j = Some d' /\
        m_class d' = m_class d /\ m_bb d' = m_bb d.
Proof.
  split; [reflexivity|]. split; [reflexivity|].
  refine (@frame_node simAPI node0 frameTracked [seen] 5 eq_refl eq_refl _).
  simpl. discriminate.
Defined.

Lemma fetch_replaces_predictions_witness :
  @toCvCopy simAPI frameTracked = Some [seen] /\
  waitForClock (@now_sec simAPI frameTracked) = Some 5 /\
  @call simAPI frameTracked (makeRequest 5) = Some [tracked] /\
  @newDataCallback simAPI (withPredictions node0 [detA; detB]) frameTracked
  = @newDataCallback simAPI node0 frameTracked.
Proof.
  split; [reflexivity|]. split; [reflexivity|]. split; [reflexivity|].
  exact (@fetch_replaces_predictions simAPI node0 frameTracked [seen] 5 [tracked]
           [detA; detB] eq_refl eq_refl eq_refl).
Defined.

Lemma stalls_iff_clock_zero_witness :
  @toCvCopy simAPI frameNoClock = Some [seen] /\
  Forall (fun r => r = 0) (@now_sec simAPI frameNoClock) /\
  @newDataCallback simAPI node0 frameNoClock = Stalled.
Proof.
  assert (Hz : Forall (fun r => r = 0) (@now_sec simAPI frameNoClock)).
  { forall_cases. }
  split; [reflexivity|]. split; [exact Hz|].
  exact (proj2 (@stalls_iff_clock_zero simAPI node0 frameNoClock [seen] eq_refl) Hz).
Defined.

Lemma run_keeps_counter_in_range_witness :
  0 <= @lastObjectID simAPI node0 <= 100000 /\
  exists n' tr,
    @run simAPI node0 [frameTracked; frameNoPredictions] = Returned n' tr /\
    0 <= @lastObjectID simAPI n' <= 100000.
Proof.
  assert (Hc : 0 <= @lastObjectID simAPI node0 <= 100000) by (simpl; lia).
  split; [exact Hc|].
  eexists _, _. split; [reflexivity|].
  exact (@run_keeps_counter_in_range simAPI [frameTracked; frameNoPredictions]
           node0 _ _ Hc eq_refl).
Defined.

Lemma undecodable_frame_leaves_no_mark_witness :
  @toCvCopy simAPI frameBroken = None /\
  exists n2 tr1 tr2,
    @run simAPI node0 ([frameTracked] ++ [frameFailing]) = Returned n2 (tr1 ++ tr2) /\
    @run simAPI node0 ([frameTracked] ++ frameBroken :: [frameFailing])
      = Returned n2 (tr1 ++ EvError CvBridgeException :: tr2) /\
    length tr1 = 3%nat.
Proof.
  split; [reflexivity|].
  pose proof (@undecodable_frame_leaves_no_mark simAPI [frameTracked] [frameFailing]
                frameBroken node0 eq_refl) as H.
  cbv beta iota delta [run] in H. cbn in H. destruct H as [H1 H2].
  eexists _, _, _. split; [exact H1|]. split; [exact H2|]. reflexivity.
Defined.
